(** * Templating reconciler: shallow embedding of
    pkg/controllers/templating_reconciler.go (Reconcile and Apply).

    The cluster client is an explicit record of operations over an abstract
    store state; every call the reconciler issues is logged, with its outcome
    for the writes, in a call trace threaded through a small state monad.
    Templating engine and patcher chain are fields of the reconciler, as in
    the source. *)

From Stdlib Require Import Ascii String List ZArith Bool Lia.
Import ListNotations.
Open Scope string_scope.
#[local] Set Warnings "-register-all".

(** ** Errors (github.com/pkg/errors and apimachinery's status errors) *)

Inductive error : Type :=
| ENotFound (msg : string)          (** a StatusError with reason NotFound *)
| EOther (msg : string)             (** any other error *)
| EWrap (label : string) (cause : error). (** errors.Wrap(cause, label) *)

Fixpoint err_string (e : error) : string :=
  match e with
  | ENotFound m => m
  | EOther m => m
  | EWrap l c => l ++ ": " ++ err_string c
  end.

(** kerrors.IsNotFound: inspects the error itself, no unwrapping. *)
Definition IsNotFound (e : error) : bool :=
  match e with ENotFound _ => true | _ => false end.

(** errors.Wrap(err, msg): nil stays nil. *)
Definition wrap (e : option error) (label : string) : option error :=
  match e with None => None | Some c => Some (EWrap label c) end.

(** client.IgnoreNotFound *)
Definition IgnoreNotFound (e : error) : option error :=
  if IsNotFound e then None else Some e.

Inductive result (A : Type) : Type :=
| Ok (a : A)
| Err (e : error).
Arguments Ok {A} a.
Arguments Err {A} e.

(** ** Error labels (the const block of the source) *)

Definition errUpdateResourceStatus := "could not update status of the parent resource".
Definition errGetResource := "could not get the parent resource".
Definition errTemplatingOperation := "templating operation failed".
Definition errChildResourcePatchers := "child resource patchers failed".
Definition errApply := "apply failed".
Definition errCreateChildResource := "could not create child resource".
Definition errGetChildResource := "could not get child resource".

(** Durations (time.Duration, nanoseconds). *)
Definition Second : Z := 1000000000.
Definition defaultShortWait : Z := 30 * Second.
Definition defaultLongWait : Z := 60 * Second.

(** ** Unstructured objects

    A child resource is an unstructured.Unstructured, i.e. a JSON object
    (map[string]interface{}).  Numbers are kept as integers, plus the
    non-finite floats (NaN, +-Inf) that a decoded YAML document may hold and
    that encoding/json refuses to encode. *)

Inductive json : Type :=
| JNull
| JBool (b : bool)
| JNum (z : Z)
| JNonFinite
| JStr (s : string)
| JArr (l : list json)
| JObj (fields : list (string * json)).

Fixpoint lookup_key (k : string) (fs : list (string * json)) : option json :=
  match fs with
  | [] => None
  | (k', v) :: r => if String.eqb k k' then Some v else lookup_key k r
  end.

Definition obj_field (k : string) (j : json) : option json :=
  match j with JObj fs => lookup_key k fs | _ => None end.

(** unstructured's NestedString: "" when missing or not a string. *)
Definition nested_string (path : list string) (j : json) : string :=
  match fold_left (fun acc k => match acc with Some x => obj_field k x | None => None end)
                  path (Some j) with
  | Some (JStr s) => s
  | _ => ""
  end.

Definition GetName (o : json) : string := nested_string ["metadata"; "name"] o.
Definition GetNamespace (o : json) : string := nested_string ["metadata"; "namespace"] o.
Definition GetAPIVersion (o : json) : string := nested_string ["apiVersion"] o.
Definition GetKind (o : json) : string := nested_string ["kind"] o.

(** schema.ParseGroupVersion followed by GroupVersionKind.String(). *)
Fixpoint count_slash (l : list Ascii.ascii) : nat :=
  match l with
  | [] => 0
  | c :: r => (if Ascii.eqb c "/"%char then 1 else 0) + count_slash r
  end.

Fixpoint split_slash (l : list Ascii.ascii) : list Ascii.ascii * list Ascii.ascii :=
  match l with
  | [] => ([], [])
  | c :: r => if Ascii.eqb c "/"%char then ([], r)
              else let (g, v) := split_slash r in (c :: g, v)
  end.

Definition ParseGroupVersion (gv : string) : option (string * string) :=
  if (String.eqb gv "") || (String.eqb gv "/") then Some ("", "") else
  let l := list_ascii_of_string gv in
  match count_slash l with
  | 0 => Some ("", gv)
  | 1 => let (g, v) := split_slash l in Some (string_of_list_ascii g, string_of_list_ascii v)
  | _ => None
  end.

(** Unstructured.GroupVersionKind().String(): an unparsable apiVersion
    yields the empty GroupVersionKind. *)
Definition GVKString (o : json) : string :=
  match ParseGroupVersion (GetAPIVersion o) with
  | Some (g, v) => g ++ "/" ++ v ++ ", Kind=" ++ GetKind o
  | None => "/" ++ "" ++ ", Kind=" ++ ""
  end.

(** Identity used by kube.Get: the object's apiVersion/kind (carried by the
    deep copy passed as target) and its namespaced name. *)
Record Ident : Type := mkIdent {
  id_apiVersion : string;
  id_kind : string;
  id_namespace : string;
  id_name : string
}.

Definition child_ident (o : json) : Ident :=
  mkIdent (GetAPIVersion o) (GetKind o) (GetNamespace o) (GetName o).

Definition ident_eqb (a b : Ident) : bool :=
  String.eqb (id_apiVersion a) (id_apiVersion b) && String.eqb (id_kind a) (id_kind b)
  && String.eqb (id_namespace a) (id_namespace b) && String.eqb (id_name a) (id_name b).

(** encoding/json Marshal of the object: fails on a non-finite number; the
    wire representation is the JSON value itself. *)
Fixpoint encodable (j : json) : bool :=
  match j with
  | JNonFinite => false
  | JArr l => forallb encodable l
  | JObj fs => forallb (fun kv => encodable (snd kv)) fs
  | _ => true
  end.

Definition errUnsupportedValue : error := EOther "json: unsupported value: NaN".

Definition json_Marshal (o : json) : result json :=
  if encodable o then Ok o else Err errUnsupportedValue.

(** ** Parent resource and status conditions *)

(** crossplane-runtime v1alpha1.Condition; lastTransitionTime is not
    modelled. *)
Record Condition : Type := mkCondition {
  c_type : string;
  c_status : string;
  c_reason : string;
  c_message : string
}.

Definition TypeSynced := "Synced".
Definition ReasonReconcileSuccess := "ReconcileSuccess".
Definition ReasonReconcileError := "ReconcileError".

(** v1alpha1.ReconcileSuccess() and v1alpha1.ReconcileError(err). *)
Definition ReconcileSuccess : Condition :=
  mkCondition TypeSynced "True" ReasonReconcileSuccess "".
Definition ReconcileError (e : error) : Condition :=
  mkCondition TypeSynced "False" ReasonReconcileError (err_string e).

(** The parent as an Unstructured seen through the accessors the code uses. *)
Record Parent : Type := mkParent {
  p_apiVersion : string;
  p_kind : string;
  p_namespace : string;
  p_name : string;
  p_deletionTimestamp : option Z;
  p_conditions : list Condition;
  p_spec : json
}.

(** meta.WasDeleted: a deletion timestamp is set. *)
Definition WasDeleted (p : Parent) : bool :=
  match p_deletionTimestamp p with Some _ => true | None => false end.

(** Modelled from the spec: resource.SetConditions (pkg/resource, not under
    src/).  "find-or-append by type, replace value": every condition of the
    new condition's type is replaced by it; it is appended when none has
    that type. *)
Definition set_condition (cs : list Condition) (c : Condition) : list Condition :=
  if existsb (fun x => String.eqb (c_type x) (c_type c)) cs
  then map (fun x => if String.eqb (c_type x) (c_type c) then c else x) cs
  else cs ++ [c].

Definition SetConditions (p : Parent) (c : Condition) : Parent :=
  {| p_apiVersion := p_apiVersion p; p_kind := p_kind p;
     p_namespace := p_namespace p; p_name := p_name p;
     p_deletionTimestamp := p_deletionTimestamp p;
     p_conditions := set_condition (p_conditions p) c;
     p_spec := p_spec p |}.

(** ** Cluster client (controller-runtime client.Client) *)

Inductive PatchType : Type := MergePatchType.

Record Client (S : Type) : Type := mkClient {
  GetParent : Ident -> S -> result Parent;
  Get : Ident -> S -> result json;
  Create : json -> S -> option error * S;
  Patch : json -> PatchType -> json -> S -> option error * S;
  StatusUpdate : Parent -> S -> option error * S;
  Delete : Ident -> S -> option error * S
}.
Arguments GetParent {S} c _ _.
Arguments Get {S} c _ _.
Arguments Create {S} c _ _.
Arguments Patch {S} c _ _ _ _.
Arguments StatusUpdate {S} c _ _.
Arguments Delete {S} c _ _.

(** Calls observed on the store, writes with their outcome. *)
Inductive Call : Type :=
| CGet (id : Ident)
| CCreate (o : json) (out : option error)
| CPatch (target : json) (pt : PatchType) (data : json) (out : option error)
| CStatusUpdate (p : Parent) (out : option error)
| CDelete (id : Ident) (out : option error).

Record World (S : Type) : Type := mkWorld {
  w_store : S;
  w_calls : list Call
}.
Arguments mkWorld {S} _ _.
Arguments w_store {S} _.
Arguments w_calls {S} _.

(** ** A state monad over the world *)

Definition M (S A : Type) : Type := World S -> A * World S.

Definition ret {S A} (a : A) : M S A := fun w => (a, w).
Definition bind {S A B} (m : M S A) (k : A -> M S B) : M S B :=
  fun w => let (a, w') := m w in k a w'.

Notation "x <- m ;; k" := (bind m (fun x => k))
  (at level 61, m at next level, right associativity).

Definition record_call {S} (c : Call) (s : S) (w : World S) : World S :=
  mkWorld s (w_calls w ++ [c]).

Section Kube.
Context {S : Type} (kube : Client S).

Definition kube_get_parent (id : Ident) : M S (result Parent) :=
  fun w => (GetParent kube id (w_store w), record_call (CGet id) (w_store w) w).

Definition kube_get (id : Ident) : M S (result json) :=
  fun w => (Get kube id (w_store w), record_call (CGet id) (w_store w) w).

Definition kube_create (o : json) : M S (option error) :=
  fun w => let (e, s) := Create kube o (w_store w) in (e, record_call (CCreate o e) s w).

Definition kube_patch (target : json) (pt : PatchType) (data : json) : M S (option error) :=
  fun w => let (e, s) := Patch kube target pt data (w_store w) in
           (e, record_call (CPatch target pt data e) s w).

Definition kube_status_update (p : Parent) : M S (option error) :=
  fun w => let (e, s) := StatusUpdate kube p (w_store w) in
           (e, record_call (CStatusUpdate p e) s w).

(** ** Apply (templating_reconciler.go, lines 168-183) *)

Definition Apply (o : json) : M S (option error) :=
  err <- kube_get (child_ident o) ;;
  match err with
  | Err e =>
      if IsNotFound e
      then c <- kube_create o ;; ret (wrap c errCreateChildResource)
      else ret (Some (EWrap errGetChildResource e))
  | Ok existing =>
      match json_Marshal o with
      | Err e => ret (Some e)
      | Ok patchJSON => kube_patch existing MergePatchType patchJSON
      end
  end.

End Kube.

(** ** The reconciler *)

Definition ChildResourcePatcher : Type := Parent -> list json -> result (list json).

(** Modelled from the spec: ChildResourcePatcherChain.Patch (pkg/resource,
    not under src/).  Steps run strictly in order, each on the previous
    step's output; the first error aborts the chain and is returned. *)
Fixpoint ChainPatch (ps : list ChildResourcePatcher) (cr : Parent) (l : list json)
  : result (list json) :=
  match ps with
  | [] => Ok l
  | p :: rest =>
      match p cr l with
      | Ok l' => ChainPatch rest cr l'
      | Err e => Err e
      end
  end.

Record TemplatingReconciler (S : Type) : Type := mkReconciler {
  kube : Client S;
  parentAPIVersion : string;   (** the GroupVersionKind `of` *)
  parentKind : string;
  shortWait : Z;
  longWait : Z;
  templatingEngine : Parent -> result (list json);
  childResourcePatcher : list ChildResourcePatcher
}.
Arguments kube {S} _.
Arguments parentAPIVersion {S} _.
Arguments parentKind {S} _.
Arguments shortWait {S} _.
Arguments longWait {S} _.
Arguments templatingEngine {S} _ _.
Arguments childResourcePatcher {S} _.

(** ctrl.Request *)
Record Request : Type := mkRequest { req_namespace : string; req_name : string }.

(** ctrl.Result *)
Record CtrlResult : Type := mkResult { Requeue : bool; RequeueAfter : Z }.

Definition NoRequeue : CtrlResult := mkResult false 0.
Definition RequeueAfterD (d : Z) : CtrlResult := mkResult false d.

Definition parent_ident {S} (r : TemplatingReconciler S) (req : Request) : Ident :=
  mkIdent (parentAPIVersion r) (parentKind r) (req_namespace req) (req_name req).

(** fmt.Sprintf("%s: %s/%s of type %s", errApply, name, namespace, gvk) *)
Definition apply_label (o : json) : string :=
  errApply ++ ": " ++ GetName o ++ "/" ++ GetNamespace o ++ " of type " ++ GVKString o.

Section Reconcile.
Context {S : Type} (r : TemplatingReconciler S).

(** The `for _, o := range childResources` loop with the success tail that
    follows it (lines 157-165). *)
Fixpoint apply_children (cr : Parent) (l : list json) : M S (CtrlResult * option error) :=
  match l with
  | [] =>
      let cr := SetConditions cr ReconcileSuccess in
      u <- kube_status_update (kube r) cr ;;
      ret (RequeueAfterD (longWait r), wrap u errUpdateResourceStatus)
  | o :: rest =>
      err <- Apply (kube r) o ;;
      match err with
      | Some e =>
          let cr := SetConditions cr (ReconcileError (EWrap (apply_label o) e)) in
          u <- kube_status_update (kube r) cr ;;
          ret (RequeueAfterD (shortWait r), wrap u errUpdateResourceStatus)
      | None => apply_children cr rest
      end
  end.

(** Reconcile (lines 128-166). *)
Definition Reconcile (req : Request) : M S (CtrlResult * option error) :=
  got <- kube_get_parent (kube r) (parent_ident r req) ;;
  match got with
  | Err e => ret (NoRequeue, wrap (IgnoreNotFound e) errGetResource)
  | Ok cr =>
      if WasDeleted cr then ret (NoRequeue, None) else
      match templatingEngine r cr with
      | Err e =>
          let cr := SetConditions cr (ReconcileError (EWrap errTemplatingOperation e)) in
          u <- kube_status_update (kube r) cr ;;
          ret (RequeueAfterD (shortWait r), wrap u errUpdateResourceStatus)
      | Ok childResources =>
          match ChainPatch (childResourcePatcher r) cr childResources with
          | Err e =>
              let cr := SetConditions cr (ReconcileError (EWrap errChildResourcePatchers e)) in
              u <- kube_status_update (kube r) cr ;;
              ret (RequeueAfterD (shortWait r), wrap u errUpdateResourceStatus)
          | Ok childResources => apply_children cr childResources
          end
      end
  end.

End Reconcile.

Definition start {S} (s : S) : World S := mkWorld s [].

(** ** An in-memory cluster store

    Objects are kept by identity.  Create stores the object as given (after
    encoding its body); a merge patch (types.MergePatchType) is applied with
    the JSON merge-patch algorithm of RFC 7386; a status update replaces the
    stored parent's conditions.  Faults can be injected per operation and
    identity, to drive the failure branches. *)

Fixpoint set_key (k : string) (v : json) (fs : list (string * json)) : list (string * json) :=
  match fs with
  | [] => [(k, v)]
  | (k', v') :: r => if String.eqb k k' then (k', v) :: r else (k', v') :: set_key k v r
  end.

Definition remove_key (k : string) (fs : list (string * json)) : list (string * json) :=
  filter (fun kv => negb (String.eqb k (fst kv))) fs.

(** The target of a member absent from the target object is undefined:
    merging into it behaves as merging into a non-object. *)
Definition lookup_dflt (k : string) (fs : list (string * json)) : json :=
  match lookup_key k fs with Some v => v | None => JNull end.

Fixpoint merge_fields (mp : json -> json -> json) (t pf : list (string * json))
  : list (string * json) :=
  match pf with
  | [] => t
  | (k, v) :: rest =>
      let t' := match v with
                | JNull => remove_key k t
                | _ => set_key k (mp (lookup_dflt k t) v) t
                end in
      merge_fields mp t' rest
  end.

(** RFC 7386 MergePatch(Target, Patch). *)
Fixpoint merge_patch (target patch : json) {struct patch} : json :=
  match patch with
  | JObj pf =>
      let tf := match target with JObj tf => tf | _ => [] end in
      JObj (merge_fields merge_patch tf pf)
  | _ => patch
  end.

Inductive Op : Type := OpGet | OpCreate | OpPatch | OpStatus | OpDelete.

Definition op_eqb (a b : Op) : bool :=
  match a, b with
  | OpGet, OpGet | OpCreate, OpCreate | OpPatch, OpPatch
  | OpStatus, OpStatus | OpDelete, OpDelete => true
  | _, _ => false
  end.

Record MemStore : Type := mkMemStore {
  ms_parents : list (Ident * Parent);
  ms_objects : list (Ident * json);
  ms_faults : list (Op * Ident * error)
}.

Fixpoint assoc {A} (id : Ident) (l : list (Ident * A)) : option A :=
  match l with
  | [] => None
  | (k, v) :: r => if ident_eqb id k then Some v else assoc id r
  end.

Fixpoint assoc_set {A} (id : Ident) (v : A) (l : list (Ident * A)) : list (Ident * A) :=
  match l with
  | [] => []
  | (k, v') :: r => if ident_eqb id k then (k, v) :: r else (k, v') :: assoc_set id v r
  end.

Fixpoint fault (op : Op) (id : Ident) (fs : list (Op * Ident * error)) : option error :=
  match fs with
  | [] => None
  | (op', id', e) :: r => if op_eqb op op' && ident_eqb id id' then Some e else fault op id r
  end.

Definition parent_key (p : Parent) : Ident :=
  mkIdent (p_apiVersion p) (p_kind p) (p_namespace p) (p_name p).

Definition errNotFound : error := ENotFound "not found".
Definition errAlreadyExists : error := EOther "already exists".

Definition with_objects (s : MemStore) (os : list (Ident * json)) : MemStore :=
  mkMemStore (ms_parents s) os (ms_faults s).

Definition mem_get_parent (id : Ident) (s : MemStore) : result Parent :=
  match fault OpGet id (ms_faults s) with
  | Some e => Err e
  | None => match assoc id (ms_parents s) with Some p => Ok p | None => Err errNotFound end
  end.

Definition mem_get (id : Ident) (s : MemStore) : result json :=
  match fault OpGet id (ms_faults s) with
  | Some e => Err e
  | None => match assoc id (ms_objects s) with Some o => Ok o | None => Err errNotFound end
  end.

Definition mem_create (o : json) (s : MemStore) : option error * MemStore :=
  let id := child_ident o in
  match fault OpCreate id (ms_faults s) with
  | Some e => (Some e, s)
  | None =>
      match json_Marshal o with
      | Err e => (Some e, s)
      | Ok body =>
          match assoc id (ms_objects s) with
          | Some _ => (Some errAlreadyExists, s)
          | None => (None, with_objects s (ms_objects s ++ [(id, body)]))
          end
      end
  end.

Definition mem_patch (target : json) (pt : PatchType) (data : json) (s : MemStore)
  : option error * MemStore :=
  let id := child_ident target in
  match fault OpPatch id (ms_faults s) with
  | Some e => (Some e, s)
  | None =>
      match assoc id (ms_objects s) with
      | None => (Some errNotFound, s)
      | Some cur => (None, with_objects s (assoc_set id (merge_patch cur data) (ms_objects s)))
      end
  end.

Definition mem_status_update (p : Parent) (s : MemStore) : option error * MemStore :=
  let id := parent_key p in
  match fault OpStatus id (ms_faults s) with
  | Some e => (Some e, s)
  | None =>
      match assoc id (ms_parents s) with
      | None => (Some errNotFound, s)
      | Some cur =>
          let cur' := {| p_apiVersion := p_apiVersion cur; p_kind := p_kind cur;
                         p_namespace := p_namespace cur; p_name := p_name cur;
                         p_deletionTimestamp := p_deletionTimestamp cur;
                         p_conditions := p_conditions p; p_spec := p_spec cur |} in
          (None, mkMemStore (assoc_set id cur' (ms_parents s)) (ms_objects s) (ms_faults s))
      end
  end.

Definition mem_delete (id : Ident) (s : MemStore) : option error * MemStore :=
  match fault OpDelete id (ms_faults s) with
  | Some e => (Some e, s)
  | None => (None, with_objects s (filter (fun kv => negb (ident_eqb id (fst kv))) (ms_objects s)))
  end.

Definition memClient : Client MemStore :=
  mkClient MemStore mem_get_parent mem_get mem_create mem_patch mem_status_update mem_delete.

(** ** Observations used in the statements *)

Definition count_calls (f : Call -> bool) (cs : list Call) : nat := length (filter f cs).

Definition is_write (c : Call) : bool :=
  match c with CCreate _ _ | CPatch _ _ _ _ => true | _ => false end.
Definition is_status (c : Call) : bool :=
  match c with CStatusUpdate _ _ => true | _ => false end.
Definition is_delete (c : Call) : bool :=
  match c with CDelete _ _ => true | _ => false end.

(** [sub] occurs in [s]. *)
Definition contains (s sub : string) : Prop := exists pre post, s = pre ++ sub ++ post.

Fixpoint nodup_b (l : list string) : bool :=
  match l with
  | [] => true
  | x :: r => negb (existsb (String.eqb x) r) && nodup_b r
  end.

(** The conditions invariant: at most one condition per type, and only the
    Synced type carries the ReconcileError reason (the only producer of that
    reason is v1alpha1.ReconcileError). *)
Definition is_error_condition (c : Condition) : bool :=
  String.eqb (c_reason c) ReasonReconcileError.

Definition count_errors (cs : list Condition) : nat := length (filter is_error_condition cs).

Definition status_wf (cs : list Condition) : bool :=
  nodup_b (map c_type cs)
  && forallb (fun c => negb (is_error_condition c) || String.eqb (c_type c) TypeSynced) cs.

(** A decoded JSON object has unique member names at every level. *)
Fixpoint json_wf (j : json) : bool :=
  match j with
  | JArr l => forallb json_wf l
  | JObj fs => nodup_b (map fst fs) && forallb (fun kv => json_wf (snd kv)) fs
  | _ => true
  end.

Definition is_null (j : json) : bool := match j with JNull => true | _ => false end.

(** No object member, at any depth, has the value null. *)
Fixpoint no_null_members (j : json) : bool :=
  match j with
  | JArr l => forallb no_null_members l
  | JObj fs => forallb (fun kv => negb (is_null (snd kv)) && no_null_members (snd kv)) fs
  | _ => true
  end.

(** Sequential application of a list of children, stopping at the first
    failure: how "the first K children apply successfully" is observed. *)
Fixpoint apply_all {S} (k : Client S) (l : list json) : M S (option error) :=
  match l with
  | [] => ret None
  | o :: rest =>
      e <- Apply k o ;;
      match e with
      | Some e => ret (Some e)
      | None => apply_all k rest
      end
  end.

Definition emptyStore : MemStore := mkMemStore [] [] [].

(** ** Concrete objects used by the witnesses and counterexamples *)

Definition configMap (name : string) (meta_extra : list (string * json)) (data : json) : json :=
  JObj [("apiVersion", JStr "v1"); ("kind", JStr "ConfigMap");
        ("metadata", JObj ([("name", JStr name); ("namespace", JStr "default")] ++ meta_extra)%list);
        ("data", data)].

Definition childA : json := configMap "a" [] (JObj [("k", JStr "v")]).
Definition childB : json := configMap "b" [] (JObj [("k", JStr "w")]).

Definition childC : json := configMap "c" [] (JObj [("k", JStr "u")]).
Definition childNaN : json := configMap "a" [] (JObj [("ratio", JNonFinite)]).
Definition childNull : json := configMap "a" [("creationTimestamp", JNull)] (JObj [("k", JStr "v")]).

Definition parentX : Parent := mkParent "example.org/v1" "Foo" "default" "x" None [] (JObj []).
Definition parentXDeleted : Parent :=
  mkParent "example.org/v1" "Foo" "default" "x" (Some 1%Z) [] (JObj []).
Definition parentXId : Ident := mkIdent "example.org/v1" "Foo" "default" "x".
Definition reqX : Request := mkRequest "default" "x".

Definition errBoom : error := EOther "boom".

Definition sampleReconciler (engine : Parent -> result (list json))
  (chain : list ChildResourcePatcher) : TemplatingReconciler MemStore :=
  mkReconciler MemStore memClient "example.org/v1" "Foo" defaultShortWait defaultLongWait
    engine chain.

Definition storeWith (p : Parent) (objs : list (Ident * json))
  (faults : list (Op * Ident * error)) : MemStore :=
  mkMemStore [(parentXId, p)] objs faults.

(** ** Construction (NewTemplatingReconciler and its options, lines 55-114)

    The logger field and the WithLogger option have no effect on the
    modelled behaviour and are not represented. *)

Definition TemplatingReconcilerOption (S : Type) : Type :=
  TemplatingReconciler S -> TemplatingReconciler S.

Definition WithChildResourcePatcher {S} (op : list ChildResourcePatcher)
  : TemplatingReconcilerOption S :=
  fun r => mkReconciler S (kube r) (parentAPIVersion r) (parentKind r) (shortWait r)
             (longWait r) (templatingEngine r) op.

Definition WithTemplatingEngine {S} (eng : Parent -> result (list json))
  : TemplatingReconcilerOption S :=
  fun r => mkReconciler S (kube r) (parentAPIVersion r) (parentKind r) (shortWait r)
             (longWait r) eng (childResourcePatcher r).

Definition WithShortWait {S} (d : Z) : TemplatingReconcilerOption S :=
  fun r => mkReconciler S (kube r) (parentAPIVersion r) (parentKind r) d
             (longWait r) (templatingEngine r) (childResourcePatcher r).

Definition WithLongWait {S} (d : Z) : TemplatingReconcilerOption S :=
  fun r => mkReconciler S (kube r) (parentAPIVersion r) (parentKind r) (shortWait r)
             d (templatingEngine r) (childResourcePatcher r).

(** Modelled from the spec: resource.NopTemplatingEngine (pkg/resource, not
    under src/), the "no-op templating engine": it renders no children. *)
Definition NopTemplatingEngine : Parent -> result (list json) := fun _ => Ok [].

(** NewTemplatingReconciler.  The default five-step patcher chain is built
    from constructors of pkg/resource, which is not under src/; it is
    passed in as [defaultPatchers].  Options are applied in order. *)
Definition NewTemplatingReconciler {S} (defaultPatchers : list ChildResourcePatcher)
  (m : Client S) (ofAPIVersion ofKind : string)
  (options : list (TemplatingReconcilerOption S)) : TemplatingReconciler S :=
  let r := mkReconciler S m ofAPIVersion ofKind defaultShortWait defaultLongWait
             NopTemplatingEngine defaultPatchers in
  fold_left (fun r opt => opt r) options r.

(** The identities fetched, in call order. *)
Fixpoint get_idents (cs : list Call) : list Ident :=
  match cs with
  | [] => []
  | CGet id :: r => id :: get_idents r
  | _ :: r => get_idents r
  end.

(** Every create and every patch in [cs] sends one of the objects [l]. *)
Definition writes_from (l : list json) (cs : list Call) : Prop :=
  forall c, In c cs ->
    match c with
    | CCreate o _ => In o l
    | CPatch _ _ d _ => In d l
    | _ => True
    end.

(** ** Generic lemmas *)

Ltac mstep :=
  unfold bind, ret, kube_get, kube_get_parent, kube_create, kube_patch,
    kube_status_update, record_call in *; simpl in *.

Lemma count_calls_app f a b : count_calls f (a ++ b)%list = count_calls f a + count_calls f b.
Proof. unfold count_calls. rewrite filter_app, length_app. reflexivity. Qed.

Lemma string_app_assoc (a b c : string) : (a ++ b) ++ c = a ++ (b ++ c).
Proof. induction a as [|x a IH]; simpl; [reflexivity | now rewrite IH]. Qed.

Lemma ident_eqb_refl (i : Ident) : ident_eqb i i = true.
Proof. destruct i; unfold ident_eqb; simpl; now rewrite !String.eqb_refl. Qed.

Lemma Apply_shape {S} (k : Client S) (o : json) (w : World S) :
  exists cs,
    w_calls (snd (Apply k o w)) = (w_calls w ++ cs)%list /\
    count_calls is_status cs = 0 /\ count_calls is_delete cs = 0 /\
    count_calls is_write cs <= 1 /\
    (fst (Apply k o w) = None -> count_calls is_write cs = 1).
Proof.
  unfold Apply. mstep.
  destruct (Get k (child_ident o) (w_store w)) as [ex|e].
  - destruct (json_Marshal o) as [d|e]; simpl.
    + destruct (Patch k ex MergePatchType d (w_store w)) as [pe s'] eqn:Hp; simpl.
      exists [CGet (child_ident o); CPatch ex MergePatchType d pe].
      rewrite <- app_assoc. repeat split; auto.
    + exists [CGet (child_ident o)]. repeat split; auto. discriminate.
  - destruct (IsNotFound e); simpl.
    + destruct (Create k o (w_store w)) as [ce s'] eqn:Hc; simpl.
      exists [CGet (child_ident o); CCreate o ce].
      rewrite <- app_assoc. repeat split; auto.
    + exists [CGet (child_ident o)]. repeat split; auto. discriminate.
Qed.

Lemma apply_children_shape {S} (r : TemplatingReconciler S) (cr : Parent) (l : list json)
  (w : World S) :
  exists cs p u,
    w_calls (snd (apply_children r cr l w)) = (w_calls w ++ cs ++ [CStatusUpdate p u])%list /\
    count_calls is_status cs = 0 /\ count_calls is_delete cs = 0 /\
    snd (fst (apply_children r cr l w)) = wrap u errUpdateResourceStatus.
Proof.
  revert cr w; induction l as [|o l IH]; intros cr w; simpl.
  - mstep. destruct (StatusUpdate (kube r) _ (w_store w)) as [u s'] eqn:Hu; simpl.
    exists []; eexists; exists u. repeat split.
  - destruct (Apply_shape (kube r) o w) as (cs & Hc & Hs & Hd & _ & _).
    unfold bind. destruct (Apply (kube r) o w) as [e w'] eqn:HA; simpl in *.
    destruct e as [e|].
    + mstep. destruct (StatusUpdate (kube r) _ (w_store w')) as [u s'] eqn:Hu; simpl.
      exists cs; eexists; exists u. rewrite Hc, <- app_assoc. repeat split; auto.
    + destruct (IH cr w') as (cs' & p & u & Hc' & Hs' & Hd' & He).
      exists (cs ++ cs')%list, p, u. rewrite Hc', Hc, <- !app_assoc.
      rewrite !count_calls_app, Hs, Hs', Hd, Hd'. repeat split; auto.
Qed.

Lemma Reconcile_shape {S} (r : TemplatingReconciler S) (req : Request) (s : S) :
  count_calls is_delete (w_calls (snd (Reconcile r req (start s)))) = 0 /\
  match GetParent (kube r) (parent_ident r req) s with
  | Ok cr =>
      if WasDeleted cr
      then w_calls (snd (Reconcile r req (start s))) = [CGet (parent_ident r req)]
      else exists cs p u,
          w_calls (snd (Reconcile r req (start s)))
            = (CGet (parent_ident r req) :: cs ++ [CStatusUpdate p u])%list /\
          count_calls is_status cs = 0 /\
          snd (fst (Reconcile r req (start s))) = wrap u errUpdateResourceStatus
  | Err _ => w_calls (snd (Reconcile r req (start s))) = [CGet (parent_ident r req)]
  end.
Proof.
  unfold Reconcile, start. mstep.
  destruct (GetParent (kube r) (parent_ident r req) s) as [cr|e]; simpl; [|split; reflexivity].
  destruct (WasDeleted cr); simpl; [split; reflexivity|].
  destruct (templatingEngine r cr) as [l|e]; simpl.
  - destruct (ChainPatch (childResourcePatcher r) cr l) as [l'|e]; simpl.
    + destruct (apply_children_shape r cr l' (mkWorld s [CGet (parent_ident r req)]))
        as (cs & p & u & Hc & Hs & Hd & He).
      simpl in Hc. rewrite Hc, He. split.
      * unfold count_calls in *; simpl; rewrite filter_app, length_app, Hd; reflexivity.
      * exists cs, p, u. repeat split; auto.
    + destruct (StatusUpdate (kube r) _ s) as [u s'] eqn:Hu; simpl.
      split; [reflexivity|]. exists []; eexists; exists u. repeat split.
  - destruct (StatusUpdate (kube r) _ s) as [u s'] eqn:Hu; simpl.
    split; [reflexivity|]. exists []; eexists; exists u. repeat split.
Qed.

Lemma not_in_count {A} (f : A -> bool) (x : A) (l : list A) :
  length (filter f l) = 0 -> f x = true -> ~ In x l.
Proof.
  intros Hl Hf Hin. assert (Hx : In x (filter f l)) by (apply filter_In; auto).
  destruct (filter f l); [contradiction | discriminate].
Qed.

(** ** C6: parent not found *)

(** C6. When the parent's Get reports not-found, Reconcile returns no error
    and no requeue directive (Requeue false, RequeueAfter 0). *)
Theorem Reconcile_parent_not_found {S} (r : TemplatingReconciler S) (req : Request) (s : S)
  (e : error)
  (Hget : GetParent (kube r) (parent_ident r req) s = Err e)
  (Hnf : IsNotFound e = true) :
  fst (Reconcile r req (start s)) = (NoRequeue, None).
Proof.
  unfold Reconcile, start. mstep. rewrite Hget. simpl.
  unfold IgnoreNotFound. rewrite Hnf. reflexivity.
Qed.

Lemma Reconcile_parent_not_found_witness :
  GetParent memClient parentXId emptyStore = Err errNotFound /\
  fst (Reconcile (sampleReconciler (fun _ => Ok [childA]) []) reqX (start emptyStore))
    = (NoRequeue, None).
Proof.
  split; [reflexivity|].
  apply (Reconcile_parent_not_found _ _ _ errNotFound); reflexivity.
Defined.

(** ** C7: deleted parent *)

(** C7. When the fetched parent carries a deletion timestamp, Reconcile
    returns no error and no requeue, leaves the store as it was, and the
    only call it issues is the initial Get of the parent. *)
Theorem Reconcile_deleted_parent {S} (r : TemplatingReconciler S) (req : Request) (s : S)
  (cr : Parent)
  (Hget : GetParent (kube r) (parent_ident r req) s = Ok cr)
  (Hdel : WasDeleted cr = true) :
  Reconcile r req (start s) = ((NoRequeue, None), mkWorld s [CGet (parent_ident r req)]).
Proof.
  unfold Reconcile, start. mstep. rewrite Hget. simpl. rewrite Hdel. reflexivity.
Qed.

Lemma Reconcile_deleted_parent_witness :
  Reconcile (sampleReconciler (fun _ => Ok [childA]) []) reqX
    (start (storeWith parentXDeleted [] []))
  = ((NoRequeue, None), mkWorld (storeWith parentXDeleted [] []) [CGet parentXId]).
Proof.
  exact (Reconcile_deleted_parent (sampleReconciler (fun _ => Ok [childA]) []) reqX
           (storeWith parentXDeleted [] []) parentXDeleted eq_refl eq_refl).
Defined.

(** ** C3: status writes per cycle *)

(** C3 (amended). The parent's status is written exactly once in every
    cycle that loads the parent and finds it not deleted (templating
    failure, patcher failure, apply failure, success, whether or not the
    write itself fails), and never in the cycles that stop at the parent's
    Get (not-found or other error) or at the deletion check. *)
Theorem Reconcile_status_written_once {S} (r : TemplatingReconciler S) (req : Request) (s : S) :
  count_calls is_status (w_calls (snd (Reconcile r req (start s))))
  = match GetParent (kube r) (parent_ident r req) s with
    | Ok cr => if WasDeleted cr then 0 else 1
    | Err _ => 0
    end.
Proof.
  destruct (Reconcile_shape r req s) as [_ Hs].
  destruct (GetParent (kube r) (parent_ident r req) s) as [cr|e].
  - destruct (WasDeleted cr).
    + rewrite Hs. reflexivity.
    + destruct Hs as (cs & p & u & Hc & Hcs & _). rewrite Hc.
      unfold count_calls in *. simpl. rewrite filter_app, length_app, Hcs. reflexivity.
  - rewrite Hs. reflexivity.
Qed.

(** C3, counterexample: a cycle whose parent is not found writes no
    status at all. *)
Lemma Reconcile_status_written_once_cex :
  count_calls is_status
    (w_calls (snd (Reconcile (sampleReconciler (fun _ => Ok [childA]) []) reqX
                     (start emptyStore)))) = 0.
Proof. reflexivity. Qed.

(** ** C5: a failing status write is the cycle's error *)

(** C5. On every branch that writes the parent's status, the returned
    error is the status write's error wrapped with the status-update label;
    in particular it is nil when the write succeeds, on failure branches
    too. *)
Theorem Reconcile_status_write_error {S} (r : TemplatingReconciler S) (req : Request) (s : S)
  (p : Parent) (u : option error)
  (Hin : In (CStatusUpdate p u) (w_calls (snd (Reconcile r req (start s))))) :
  snd (fst (Reconcile r req (start s))) = wrap u errUpdateResourceStatus.
Proof.
  destruct (Reconcile_shape r req s) as [_ Hs].
  destruct (GetParent (kube r) (parent_ident r req) s) as [cr|e].
  - destruct (WasDeleted cr).
    + rewrite Hs in Hin. destruct Hin as [H|[]]. discriminate.
    + destruct Hs as (cs & p' & u' & Hc & Hcs & He). rewrite He.
      rewrite Hc in Hin. destruct Hin as [H|Hin]; [discriminate|].
      apply in_app_or in Hin. destruct Hin as [Hin|[H|[]]].
      * exfalso. exact (not_in_count is_status (CStatusUpdate p u) cs Hcs eq_refl Hin).
      * congruence.
  - rewrite Hs in Hin. destruct Hin as [H|[]]. discriminate.
Qed.

Lemma Reconcile_status_write_error_witness :
  In (CStatusUpdate (SetConditions parentX ReconcileSuccess) (Some errBoom))
     (w_calls (snd (Reconcile (sampleReconciler (fun _ => Ok []) []) reqX
                      (start (storeWith parentX [] [(OpStatus, parentXId, errBoom)]))))) /\
  snd (fst (Reconcile (sampleReconciler (fun _ => Ok []) []) reqX
              (start (storeWith parentX [] [(OpStatus, parentXId, errBoom)]))))
  = wrap (Some errBoom) errUpdateResourceStatus.
Proof.
  assert (H : In (CStatusUpdate (SetConditions parentX ReconcileSuccess) (Some errBoom))
     (w_calls (snd (Reconcile (sampleReconciler (fun _ => Ok []) []) reqX
                      (start (storeWith parentX [] [(OpStatus, parentXId, errBoom)])))))).
  { vm_compute. right. left. reflexivity. }
  split; [exact H|].
  exact (Reconcile_status_write_error _ _ _ _ _ H).
Defined.

(** ** C9: no deletes *)

(** C9. Neither Apply nor Reconcile ever issues a Delete call, whatever
    the client, the templating engine and the patcher chain: a child that
    vanishes from the templated output is left in the store. *)
Theorem Reconcile_Apply_never_delete :
  (forall S (k : Client S) (o : json) (s : S),
      count_calls is_delete (w_calls (snd (Apply k o (start s)))) = 0) /\
  (forall S (r : TemplatingReconciler S) (req : Request) (s : S),
      count_calls is_delete (w_calls (snd (Reconcile r req (start s)))) = 0).
Proof.
  split.
  - intros S k o s. destruct (Apply_shape k o (start s)) as (cs & Hc & _ & Hd & _).
    rewrite Hc. exact Hd.
  - intros S r req s. exact (proj1 (Reconcile_shape r req s)).
Qed.

(** ** Conditions *)

Lemma filter_type_absent (k : string) (cs : list Condition) :
  existsb (String.eqb k) (map c_type cs) = false ->
  filter (fun x => String.eqb (c_type x) k) cs = [].
Proof.
  induction cs as [|x cs IH]; simpl; intros H; [reflexivity|].
  apply orb_false_iff in H as [H1 H2].
  rewrite String.eqb_sym, H1. auto.
Qed.

Lemma nodup_filter_type_le1 (k : string) (cs : list Condition) :
  nodup_b (map c_type cs) = true ->
  length (filter (fun x => String.eqb (c_type x) k) cs) <= 1.
Proof.
  induction cs as [|x cs IH]; simpl; intros H; [lia|].
  apply andb_true_iff in H as [H1 H2]. apply negb_true_iff in H1.
  destruct (String.eqb (c_type x) k) eqn:E; simpl.
  - apply String.eqb_eq in E. subst k. rewrite filter_type_absent; simpl; auto.
  - auto.
Qed.

Lemma existsb_filter_type (k : string) (cs : list Condition) :
  existsb (fun x => String.eqb (c_type x) k) cs = true ->
  1 <= length (filter (fun x => String.eqb (c_type x) k) cs).
Proof.
  induction cs as [|x cs IH]; simpl; intros H; [discriminate|].
  destruct (String.eqb (c_type x) k); simpl; [lia|auto].
Qed.

Lemma count_errors_replace (c : Condition) (cs : list Condition) :
  is_error_condition c = true ->
  forallb (fun x => negb (is_error_condition x) || String.eqb (c_type x) (c_type c)) cs = true ->
  count_errors (map (fun x => if String.eqb (c_type x) (c_type c) then c else x) cs)
  = length (filter (fun x => String.eqb (c_type x) (c_type c)) cs).
Proof.
  intros Hc. unfold count_errors.
  induction cs as [|x cs IH]; simpl; intros H; [reflexivity|].
  apply andb_true_iff in H as [H1 H2].
  destruct (String.eqb (c_type x) (c_type c)) eqn:E; simpl.
  - rewrite Hc. simpl. auto.
  - rewrite orb_false_r in H1. apply negb_true_iff in H1. rewrite H1. auto.
Qed.

Lemma count_errors_none (c : Condition) (cs : list Condition) :
  forallb (fun x => negb (is_error_condition x) || String.eqb (c_type x) (c_type c)) cs = true ->
  existsb (fun x => String.eqb (c_type x) (c_type c)) cs = false ->
  count_errors cs = 0.
Proof.
  unfold count_errors. induction cs as [|x cs IH]; simpl; intros H1 H2; [reflexivity|].
  apply andb_true_iff in H1 as [H1 H1']. apply orb_false_iff in H2 as [H2 H2'].
  rewrite H2, orb_false_r in H1. apply negb_true_iff in H1. rewrite H1. auto.
Qed.

(** Setting an error condition on a well-formed status leaves exactly one
    error condition. *)
Lemma set_condition_error_count (e : error) (cs : list Condition) :
  status_wf cs = true -> count_errors (set_condition cs (ReconcileError e)) = 1.
Proof.
  unfold status_wf. intros H. apply andb_true_iff in H as [Hnd Hsy].
  unfold set_condition.
  destruct (existsb (fun x => String.eqb (c_type x) (c_type (ReconcileError e))) cs) eqn:Ex.
  - rewrite count_errors_replace by (simpl; auto).
    pose proof (nodup_filter_type_le1 (c_type (ReconcileError e)) cs Hnd).
    pose proof (existsb_filter_type _ cs Ex). lia.
  - unfold count_errors in *. rewrite filter_app, length_app.
    fold (count_errors cs). rewrite (count_errors_none (ReconcileError e) cs); simpl; auto.
Qed.

Lemma set_condition_in (c : Condition) (cs : list Condition) :
  In c (set_condition cs c).
Proof.
  unfold set_condition.
  destruct (existsb (fun x => String.eqb (c_type x) (c_type c)) cs) eqn:Ex.
  - apply existsb_exists in Ex as [x [Hx Hxt]].
    apply in_map_iff. exists x. rewrite Hxt. auto.
  - apply in_or_app. right. left. reflexivity.
Qed.

Lemma nodup_b_snoc (l : list string) (k : string) :
  nodup_b l = true -> existsb (String.eqb k) l = false -> nodup_b (l ++ [k]) = true.
Proof.
  induction l as [|x l IH]; simpl; intros H1 H2; [reflexivity|].
  apply andb_true_iff in H1 as [H1 H1']. apply orb_false_iff in H2 as [H2 H2'].
  rewrite IH by auto. rewrite existsb_app. simpl.
  rewrite String.eqb_sym, H2. apply negb_true_iff in H1. rewrite H1. reflexivity.
Qed.

Lemma existsb_map_type (k : string) (cs : list Condition) :
  existsb (String.eqb k) (map c_type cs) = existsb (fun x => String.eqb (c_type x) k) cs.
Proof.
  induction cs as [|x cs IH]; simpl; [reflexivity|]. rewrite IH, String.eqb_sym. reflexivity.
Qed.

(** The invariant is kept by the conditions this reconciler sets. *)
Lemma set_condition_wf (c : Condition) (cs : list Condition) :
  c_type c = TypeSynced -> status_wf cs = true -> status_wf (set_condition cs c) = true.
Proof.
  unfold status_wf. intros Ht H. apply andb_true_iff in H as [Hnd Hsy].
  unfold set_condition.
  destruct (existsb (fun x => String.eqb (c_type x) (c_type c)) cs) eqn:Ex.
  - rewrite map_map.
    replace (map (fun x => c_type (if String.eqb (c_type x) (c_type c) then c else x)) cs)
      with (map c_type cs).
    2:{ apply map_ext. intros x. destruct (String.eqb (c_type x) (c_type c)) eqn:E; auto.
        apply String.eqb_eq in E. auto. }
    rewrite Hnd. simpl. rewrite forallb_forall in *. intros x Hx.
    apply in_map_iff in Hx as [y [Hy Hyin]]. subst x.
    destruct (String.eqb (c_type y) (c_type c)); auto.
    rewrite Ht, String.eqb_refl, orb_true_r. reflexivity.
  - rewrite map_app. simpl. rewrite nodup_b_snoc; auto.
    2:{ rewrite existsb_map_type. exact Ex. }
    rewrite forallb_app, Hsy. simpl. rewrite Ht, String.eqb_refl, !orb_true_r. reflexivity.
Qed.

(** ** C4: templating and patcher failures *)

(** C4. When the templating engine fails, or it succeeds and the patcher
    chain fails, Reconcile sets on the parent an error condition whose
    message starts with the phase's label ("templating operation failed"
    or "child resource patchers failed"), leaving exactly one error
    condition on a well-formed status; it writes the status once, issues no
    call for any child, and returns a requeue after the short wait, with
    the status write's error (wrapped) as its error. *)
Theorem Reconcile_pre_apply_failure {S} (r : TemplatingReconciler S) (req : Request) (s : S)
  (cr : Parent) (e : error) (lbl : string)
  (Hget : GetParent (kube r) (parent_ident r req) s = Ok cr)
  (Hdel : WasDeleted cr = false)
  (Hwf : status_wf (p_conditions cr) = true)
  (Hfail : (templatingEngine r cr = Err e /\ lbl = errTemplatingOperation) \/
           (exists l, templatingEngine r cr = Ok l /\
                      ChainPatch (childResourcePatcher r) cr l = Err e /\
                      lbl = errChildResourcePatchers)) :
  let cr' := SetConditions cr (ReconcileError (EWrap lbl e)) in
  let u := fst (StatusUpdate (kube r) cr' s) in
  Reconcile r req (start s)
    = ((RequeueAfterD (shortWait r), wrap u errUpdateResourceStatus),
       mkWorld (snd (StatusUpdate (kube r) cr' s))
               [CGet (parent_ident r req); CStatusUpdate cr' u]) /\
  count_errors (p_conditions cr') = 1 /\
  In (ReconcileError (EWrap lbl e)) (p_conditions cr') /\
  contains (c_message (ReconcileError (EWrap lbl e))) lbl.
Proof.
  intros cr' u. split; [|split; [|split]].
  - unfold Reconcile, start. mstep. rewrite Hget. simpl. rewrite Hdel.
    destruct Hfail as [[Ht ->] | (l & Ht & Hc & ->)]; rewrite Ht; [|rewrite Hc];
      unfold u, cr'; cbn [w_store w_calls app]; destruct (StatusUpdate (kube r) _ s); reflexivity.
  - apply set_condition_error_count. exact Hwf.
  - apply set_condition_in.
  - exists "", (": " ++ err_string e). reflexivity.
Qed.

Lemma Reconcile_pre_apply_failure_witness :
  GetParent memClient parentXId (storeWith parentX [] []) = Ok parentX /\
  (let cr' := SetConditions parentX (ReconcileError (EWrap errTemplatingOperation errBoom)) in
   let u := fst (StatusUpdate memClient cr' (storeWith parentX [] [])) in
   Reconcile (sampleReconciler (fun _ => Err errBoom) []) reqX (start (storeWith parentX [] []))
     = ((RequeueAfterD defaultShortWait, wrap u errUpdateResourceStatus),
        mkWorld (snd (StatusUpdate memClient cr' (storeWith parentX [] [])))
                [CGet parentXId; CStatusUpdate cr' u]) /\
   count_errors (p_conditions cr') = 1 /\
   In (ReconcileError (EWrap errTemplatingOperation errBoom)) (p_conditions cr') /\
   contains (c_message (ReconcileError (EWrap errTemplatingOperation errBoom)))
            errTemplatingOperation).
Proof.
  split; [reflexivity|].
  exact (Reconcile_pre_apply_failure (sampleReconciler (fun _ => Err errBoom) []) reqX
           (storeWith parentX [] []) parentX errBoom errTemplatingOperation
           eq_refl eq_refl eq_refl (or_introl (conj eq_refl eq_refl))).
Defined.

(** ** C10: serialization failure in Apply *)

(** C10. When the existing object is fetched but the desired object cannot
    be serialized, Apply returns the serialization error itself, with no
    label, and issues no patch (the Get is the only call). *)
Theorem Apply_marshal_error {S} (k : Client S) (o : json) (s : S) (ex : json) (e : error)
  (Hget : Get k (child_ident o) s = Ok ex)
  (Hm : json_Marshal o = Err e) :
  Apply k o (start s) = (Some e, mkWorld s [CGet (child_ident o)]).
Proof.
  unfold Apply, start. mstep. rewrite Hget, Hm. reflexivity.
Qed.

Lemma Apply_marshal_error_witness :
  Apply memClient childNaN (start (storeWith parentX [(child_ident childA, childA)] []))
  = (Some errUnsupportedValue,
     mkWorld (storeWith parentX [(child_ident childA, childA)] []) [CGet (child_ident childNaN)]).
Proof.
  exact (Apply_marshal_error memClient childNaN (storeWith parentX [(child_ident childA, childA)] [])
           childA errUnsupportedValue eq_refl eq_refl).
Defined.

(** ** C1: the Apply protocol *)

(** Apply as the code has it (see C1 for its patch path).  Apply first Gets the object with the child's identity
    (apiVersion, kind, namespace, name).  On not-found it creates the child
    as given and returns the create error wrapped with the create label
    (nil on success); on any other Get error it returns that error wrapped
    with the get label and issues nothing else; when the object exists it
    serializes the child and, if that succeeds, issues one merge patch of
    the serialized child against the fetched object and returns the patch's
    error as is, without a label; a serialization error is returned as is. *)
Theorem Apply_protocol {S} (k : Client S) (o : json) (s : S) :
  let id := child_ident o in
  (forall e, Get k id s = Err e -> IsNotFound e = true ->
     Apply k o (start s)
     = (wrap (fst (Create k o s)) errCreateChildResource,
        mkWorld (snd (Create k o s)) [CGet id; CCreate o (fst (Create k o s))])) /\
  (forall e, Get k id s = Err e -> IsNotFound e = false ->
     Apply k o (start s) = (Some (EWrap errGetChildResource e), mkWorld s [CGet id])) /\
  (forall ex d, Get k id s = Ok ex -> json_Marshal o = Ok d ->
     Apply k o (start s)
     = (fst (Patch k ex MergePatchType d s),
        mkWorld (snd (Patch k ex MergePatchType d s))
                [CGet id; CPatch ex MergePatchType d (fst (Patch k ex MergePatchType d s))])) /\
  (forall ex e, Get k id s = Ok ex -> json_Marshal o = Err e ->
     Apply k o (start s) = (Some e, mkWorld s [CGet id])).
Proof.
  intros id. unfold Apply, start, id. mstep.
  repeat split.
  - intros e Hg Hn. rewrite Hg, Hn. cbn [w_store w_calls app]. destruct (Create k o s); reflexivity.
  - intros e Hg Hn. rewrite Hg, Hn. reflexivity.
  - intros ex d Hg Hm. rewrite Hg, Hm. cbn [w_store w_calls app]. destruct (Patch k ex MergePatchType d s); reflexivity.
  - intros ex e Hg Hm. rewrite Hg, Hm. reflexivity.
Qed.

(** C1 (code bug, line 182). The stored object exists and the store refuses
    the merge patch: Apply returns the patch error bare, not wrapped with any
    label, while the Get and Create paths beside it label their errors
    (errGetChildResource, errCreateChildResource) and the claim requires
    patch errors to carry a distinguishing label too. *)
Lemma Apply_patch_error_unlabelled :
  fst (Apply memClient childA
         (start (storeWith parentX [(child_ident childA, childA)]
                   [(OpPatch, child_ident childA, errBoom)]))) = Some errBoom /\
  (forall l c, fst (Apply memClient childA
                   (start (storeWith parentX [(child_ident childA, childA)]
                             [(OpPatch, child_ident childA, errBoom)]))) <> Some (EWrap l c)).
Proof.
  assert (H : fst (Apply memClient childA
         (start (storeWith parentX [(child_ident childA, childA)]
                   [(OpPatch, child_ident childA, errBoom)]))) = Some errBoom)
    by reflexivity.
  split; [exact H|]. intros l c. rewrite H. discriminate.
Qed.

(** ** C2: fail-fast over the children *)

Lemma apply_children_prefix {S} (r : TemplatingReconciler S) (cr : Parent)
  (pre l : list json) (w1 w2 : World S) :
  apply_all (kube r) pre w1 = (None, w2) ->
  apply_children r cr (pre ++ l) w1 = apply_children r cr l w2.
Proof.
  revert w1; induction pre as [|o pre IH]; intros w1 H; simpl in *.
  - unfold ret in H. congruence.
  - unfold bind in *. destruct (Apply (kube r) o w1) as [e w'] eqn:HA.
    destruct e as [e|]; [unfold ret in H; discriminate|]. auto.
Qed.

Lemma apply_all_writes {S} (k : Client S) (pre : list json) (w1 w2 : World S) :
  apply_all k pre w1 = (None, w2) ->
  count_calls is_write (w_calls w2) = count_calls is_write (w_calls w1) + length pre.
Proof.
  revert w1; induction pre as [|o pre IH]; intros w1 H; simpl in *.
  - unfold ret in H. inversion H. lia.
  - unfold bind in H. destruct (Apply_shape k o w1) as (cs & Hc & _ & _ & _ & H1).
    destruct (Apply k o w1) as [e w'] eqn:HA. simpl in *.
    destruct e as [e|]; [unfold ret in H; discriminate|].
    rewrite (IH w' H), Hc, count_calls_app, (H1 eq_refl). lia.
Qed.

(** C2 (amended). If the first K children apply successfully and child
    K+1 fails, Reconcile stops at it: the K successful applications issued
    exactly K create/patch calls, child K+1 issued at most one more (its
    own failing create or patch, when that is what failed), no call is
    issued for the children after it, and the status write that ends the
    cycle carries an error condition whose message names the failing
    child's name, namespace and group-version-kind; the result is a requeue
    after the short wait. *)
Theorem Reconcile_fail_fast {S} (r : TemplatingReconciler S) (req : Request) (s : S)
  (cr : Parent) (l0 pre : list json) (c : json) (post : list json) (e : error)
  (w2 w3 : World S)
  (Hget : GetParent (kube r) (parent_ident r req) s = Ok cr)
  (Hdel : WasDeleted cr = false)
  (Ht : templatingEngine r cr = Ok l0)
  (Hch : ChainPatch (childResourcePatcher r) cr l0 = Ok (pre ++ c :: post)%list)
  (Hpre : apply_all (kube r) pre (mkWorld s [CGet (parent_ident r req)]) = (None, w2))
  (Hfail : Apply (kube r) c w2 = (Some e, w3)) :
  let cr' := SetConditions cr (ReconcileError (EWrap (apply_label c) e)) in
  let u := fst (StatusUpdate (kube r) cr' (w_store w3)) in
  let msg := c_message (ReconcileError (EWrap (apply_label c) e)) in
  Reconcile r req (start s)
    = ((RequeueAfterD (shortWait r), wrap u errUpdateResourceStatus),
       mkWorld (snd (StatusUpdate (kube r) cr' (w_store w3)))
               (w_calls w3 ++ [CStatusUpdate cr' u])%list) /\
  count_calls is_write (w_calls w2) = length pre /\
  count_calls is_write (w_calls w3) <= length pre + 1 /\
  In (ReconcileError (EWrap (apply_label c) e)) (p_conditions cr') /\
  contains msg (GetName c) /\ contains msg (GetNamespace c) /\ contains msg (GVKString c).
Proof.
  intros cr' u msg. split; [|split; [|split; [|split; [|split; [|split]]]]].
  - unfold Reconcile, start. unfold bind at 1, kube_get_parent, record_call. simpl.
    rewrite Hget, Hdel, Ht. simpl. rewrite Hch.
    rewrite (apply_children_prefix r cr pre (c :: post) _ _ Hpre). simpl.
    unfold bind at 1. rewrite Hfail. mstep. unfold u, cr'.
    destruct (StatusUpdate (kube r) _ (w_store w3)); reflexivity.
  - rewrite (apply_all_writes _ _ _ _ Hpre). reflexivity.
  - destruct (Apply_shape (kube r) c w2) as (cs & Hc & _ & _ & H1 & _).
    rewrite Hfail in Hc. simpl in Hc. rewrite Hc, count_calls_app,
      (apply_all_writes _ _ _ _ Hpre). simpl. lia.
  - apply set_condition_in.
  - exists (errApply ++ ": "),
      ("/" ++ GetNamespace c ++ " of type " ++ GVKString c ++ ": " ++ err_string e).
    unfold msg, apply_label. simpl c_message. cbn [err_string].
    repeat (progress simpl || rewrite string_app_assoc). reflexivity.
  - exists (errApply ++ ": " ++ GetName c ++ "/"),
      (" of type " ++ GVKString c ++ ": " ++ err_string e).
    unfold msg, apply_label. simpl c_message. cbn [err_string].
    repeat (progress simpl || rewrite string_app_assoc). reflexivity.
  - exists (errApply ++ ": " ++ GetName c ++ "/" ++ GetNamespace c ++ " of type "),
      (": " ++ err_string e).
    unfold msg, apply_label. simpl c_message. cbn [err_string].
    repeat (progress simpl || rewrite string_app_assoc). reflexivity.
Qed.

Lemma Reconcile_fail_fast_witness :
  let s := storeWith parentX [] [(OpCreate, child_ident childB, errBoom)] in
  let w1 := mkWorld s [CGet parentXId] in
  let w2 := snd (apply_all memClient [childA] w1) in
  let w3 := snd (Apply memClient childB w2) in
  apply_all memClient [childA] w1 = (None, w2) /\
  Apply memClient childB w2 = (Some (EWrap errCreateChildResource errBoom), w3) /\
  count_calls is_write (w_calls w2) = 1 /\
  count_calls is_write (w_calls w3) <= 2.
Proof.
  intros s w1 w2 w3.
  assert (H1 : apply_all memClient [childA] w1 = (None, w2)) by reflexivity.
  assert (H2 : Apply memClient childB w2 = (Some (EWrap errCreateChildResource errBoom), w3))
    by reflexivity.
  destruct (Reconcile_fail_fast (sampleReconciler (fun _ => Ok [childA; childB; childC]) [])
              reqX s parentX [childA; childB; childC] [childA] childB [childC]
              (EWrap errCreateChildResource errBoom) w2 w3
              eq_refl eq_refl eq_refl eq_refl H1 H2) as (_ & Hk & Hk1 & _).
  repeat split; assumption.
Defined.

(** C2, counterexample: the only child (K = 0) fails at its create, and
    that create is a call observed on the store: one create/patch call,
    not zero. *)
Lemma Reconcile_fail_fast_cex :
  fst (Apply memClient childA
         (mkWorld (storeWith parentX [] [(OpCreate, child_ident childA, errBoom)])
                  [CGet parentXId])) <> None /\
  count_calls is_write
    (w_calls (snd (Reconcile (sampleReconciler (fun _ => Ok [childA]) []) reqX
                     (start (storeWith parentX [] [(OpCreate, child_ident childA, errBoom)])))))
  = 1.
Proof. split; [discriminate | reflexivity]. Qed.

(** ** C8: applying the same child twice *)

Section JsonInd.
Variable P : json -> Prop.
Hypothesis HNull : P JNull.
Hypothesis HBool : forall b, P (JBool b).
Hypothesis HNum : forall z, P (JNum z).
Hypothesis HNonFinite : P JNonFinite.
Hypothesis HStr : forall s, P (JStr s).
Hypothesis HArr : forall l, Forall P l -> P (JArr l).
Hypothesis HObj : forall fs, Forall (fun kv => P (snd kv)) fs -> P (JObj fs).

Fixpoint json_ind' (j : json) : P j :=
  match j with
  | JNull => HNull
  | JBool b => HBool b
  | JNum z => HNum z
  | JNonFinite => HNonFinite
  | JStr s => HStr s
  | JArr l =>
      HArr l ((fix go (l : list json) : Forall P l :=
                 match l with
                 | [] => Forall_nil _
                 | x :: r => Forall_cons x (json_ind' x) (go r)
                 end) l)
  | JObj fs =>
      HObj fs ((fix go (fs : list (string * json)) : Forall (fun kv => P (snd kv)) fs :=
                  match fs with
                  | [] => Forall_nil _
                  | (k, v) :: r => Forall_cons (k, v) (json_ind' v) (go r)
                  end) fs)
  end.
End JsonInd.

Lemma lookup_key_in (k : string) (v : json) (fs : list (string * json)) :
  nodup_b (map fst fs) = true -> In (k, v) fs -> lookup_key k fs = Some v.
Proof.
  induction fs as [|[k' v'] fs IH]; simpl; intros Hnd Hin; [contradiction|].
  apply andb_true_iff in Hnd as [H1 H2]. apply negb_true_iff in H1.
  destruct Hin as [Heq|Hin].
  - inversion Heq; subst. rewrite String.eqb_refl. reflexivity.
  - destruct (String.eqb k k') eqn:E.
    + apply String.eqb_eq in E. subst k'. exfalso.
      assert (Hx : existsb (String.eqb k) (map fst fs) = true).
      { apply existsb_exists. exists k. split; [apply in_map_iff; exists (k, v); auto|].
        apply String.eqb_refl. }
      congruence.
    + auto.
Qed.

Lemma set_key_same (k : string) (v : json) (t : list (string * json)) :
  lookup_key k t = Some v -> set_key k v t = t.
Proof.
  induction t as [|[k' v'] t IH]; simpl; intros H; [discriminate|].
  destruct (String.eqb k k'); [congruence|]. rewrite IH; auto.
Qed.

Lemma merge_fields_self (pf t : list (string * json)) :
  (forall k v, In (k, v) pf ->
     lookup_key k t = Some v /\ is_null v = false /\ merge_patch v v = v) ->
  merge_fields merge_patch t pf = t.
Proof.
  induction pf as [|[k v] pf IH]; simpl; intros H; [reflexivity|].
  destruct (H k v (or_introl eq_refl)) as (Hl & Hn & Hm).
  assert (Hs : (match v with
                | JNull => remove_key k t
                | _ => set_key k (merge_patch (lookup_dflt k t) v) t
                end) = set_key k (merge_patch (lookup_dflt k t) v) t)
    by (destruct v; [discriminate | reflexivity ..]).
  rewrite Hs. unfold lookup_dflt. rewrite Hl, Hm, (set_key_same k v t Hl).
  apply IH. intros k' v' Hin. apply H. right. exact Hin.
Qed.

(** Merge-patching a well-formed object with itself changes nothing when
    none of its members is null. *)
Lemma merge_patch_self (j : json) :
  json_wf j = true -> no_null_members j = true -> merge_patch j j = j.
Proof.
  induction j as [| | | | | l _ | fs IHfs] using json_ind'; intros Hwf Hnn; try reflexivity.
  simpl in Hwf, Hnn |- *. f_equal.
  apply andb_true_iff in Hwf as [Hnd Hall].
  apply merge_fields_self. intros k v Hin. split; [|split].
  - apply lookup_key_in; assumption.
  - rewrite forallb_forall in Hnn. specialize (Hnn (k, v) Hin). simpl in Hnn.
    apply andb_true_iff in Hnn as [Hn _]. apply negb_true_iff. exact Hn.
  - rewrite Forall_forall in IHfs. apply (IHfs (k, v) Hin).
    + rewrite forallb_forall in Hall. exact (Hall (k, v) Hin).
    + rewrite forallb_forall in Hnn. specialize (Hnn (k, v) Hin). simpl in Hnn.
      apply andb_true_iff in Hnn as [_ Hn]. exact Hn.
Qed.

Lemma json_Marshal_ok (o : json) : encodable o = true -> json_Marshal o = Ok o.
Proof. unfold json_Marshal. intros H. rewrite H. reflexivity. Qed.

(** C8 (amended). For a child that is encodable, has unique member names
    and has no null-valued member, applying it twice against an empty store
    succeeds both times and issues a Get and a create, then a Get and one
    merge patch, which leaves the stored object exactly as the create left
    it. *)
Theorem Apply_twice_idempotent (o : json)
  (Hwf : json_wf o = true) (Hnn : no_null_members o = true) (Henc : encodable o = true) :
  let id := child_ident o in
  let w1 := snd (Apply memClient o (start emptyStore)) in
  fst (Apply memClient o (start emptyStore)) = None /\
  fst (Apply memClient o w1) = None /\
  w_calls (snd (Apply memClient o w1))
    = [CGet id; CCreate o None; CGet id; CPatch o MergePatchType o None] /\
  w_store (snd (Apply memClient o w1)) = w_store w1.
Proof.
  intros id w1.
  assert (Hw1 : Apply memClient o (start emptyStore)
                = (None, mkWorld (mkMemStore [] [(id, o)] []) [CGet id; CCreate o None])).
  { unfold Apply, start. mstep. unfold mem_get, mem_create. simpl.
    rewrite (json_Marshal_ok o Henc). reflexivity. }
  unfold w1. rewrite Hw1. simpl.
  assert (Hw2 : Apply memClient o (mkWorld (mkMemStore [] [(id, o)] []) [CGet id; CCreate o None])
                = (None, mkWorld (mkMemStore [] [(id, o)] [])
                                 [CGet id; CCreate o None; CGet id;
                                  CPatch o MergePatchType o None])).
  { unfold Apply. mstep. unfold mem_get, mem_patch. simpl. fold id.
    rewrite ident_eqb_refl, (json_Marshal_ok o Henc). simpl. fold id.
    rewrite ident_eqb_refl, (merge_patch_self o Hwf Hnn). reflexivity. }
  rewrite Hw2. repeat split.
Qed.

Lemma Apply_twice_idempotent_witness :
  let id := child_ident childA in
  let w1 := snd (Apply memClient childA (start emptyStore)) in
  fst (Apply memClient childA (start emptyStore)) = None /\
  fst (Apply memClient childA w1) = None /\
  w_calls (snd (Apply memClient childA w1))
    = [CGet id; CCreate childA None; CGet id; CPatch childA MergePatchType childA None] /\
  w_store (snd (Apply memClient childA w1)) = w_store w1.
Proof. exact (Apply_twice_idempotent childA eq_refl eq_refl eq_refl). Defined.

(** C8, counterexample: a child holding a null member
    (metadata.creationTimestamp: null) is created as given; the second
    Apply's merge patch then removes that member, so the patch is not a
    no-op. *)
Lemma Apply_twice_idempotent_cex :
  let id := child_ident childNull in
  let w1 := snd (Apply memClient childNull (start emptyStore)) in
  w_calls (snd (Apply memClient childNull w1))
    = [CGet id; CCreate childNull None; CGet id; CPatch childNull MergePatchType childNull None] /\
  w_store (snd (Apply memClient childNull w1)) <> w_store w1.
Proof.
  split; [reflexivity|]. vm_compute. congruence.
Qed.

(** * Further properties of the code *)

Lemma get_idents_app (a b : list Call) :
  get_idents (a ++ b)%list = (get_idents a ++ get_idents b)%list.
Proof. induction a as [|[] a IH]; simpl; try rewrite IH; reflexivity. Qed.

Lemma writes_from_app (l : list json) (a b : list Call) :
  writes_from l a -> writes_from l b -> writes_from l (a ++ b)%list.
Proof.
  intros Ha Hb c Hc. apply in_app_or in Hc as [Hc|Hc]; [apply Ha|apply Hb]; exact Hc.
Qed.

Lemma writes_from_incl (l l' : list json) (cs : list Call) :
  incl l l' -> writes_from l cs -> writes_from l' cs.
Proof.
  intros Hi H c Hc. specialize (H c Hc). destruct c; auto.
Qed.

Lemma Apply_calls {S} (k : Client S) (o : json) (w : World S) :
  exists cs,
    w_calls (snd (Apply k o w)) = (w_calls w ++ cs)%list /\
    get_idents cs = [child_ident o] /\
    writes_from [o] cs.
Proof.
  unfold Apply. mstep.
  destruct (Get k (child_ident o) (w_store w)) as [ex|e].
  - destruct (json_Marshal o) as [d|e] eqn:Hm; simpl.
    + destruct (Patch k ex MergePatchType d (w_store w)) as [pe s'] eqn:Hp; simpl.
      exists [CGet (child_ident o); CPatch ex MergePatchType d pe].
      rewrite <- app_assoc. repeat split; auto.
      intros c [<-|[<-|[]]]; simpl; auto.
      unfold json_Marshal in Hm. destruct (encodable o); inversion Hm; auto.
    + exists [CGet (child_ident o)]. repeat split; auto. intros c [<-|[]]; exact I.
  - destruct (IsNotFound e); simpl.
    + destruct (Create k o (w_store w)) as [ce s'] eqn:Hc; simpl.
      exists [CGet (child_ident o); CCreate o ce].
      rewrite <- app_assoc. repeat split; auto.
      intros c [<-|[<-|[]]]; simpl; auto.
    + exists [CGet (child_ident o)]. repeat split; auto. intros c [<-|[]]; exact I.
Qed.

(** X3. One Apply issues at most one create or patch call and never writes
    a status or deletes; when it returns nil it issued exactly one create
    or patch.  Its first call is the Get of the child's identity and it
    fetches nothing else; what it creates or patches is the child itself. *)
Theorem Apply_one_write {S} (k : Client S) (o : json) (s : S) :
  let cs := w_calls (snd (Apply k o (start s))) in
  count_calls is_write cs <= 1 /\
  (fst (Apply k o (start s)) = None -> count_calls is_write cs = 1) /\
  count_calls is_status cs = 0 /\ count_calls is_delete cs = 0 /\
  get_idents cs = [child_ident o] /\
  writes_from [o] cs.
Proof.
  intros cs.
  destruct (Apply_shape k o (start s)) as (cs1 & H1 & Hs & Hd & Hw & Hn).
  destruct (Apply_calls k o (start s)) as (cs2 & H2 & Hg & Hf).
  rewrite H1 in H2. simpl in H2. subst cs2.
  unfold cs. rewrite H1. simpl. repeat split; auto.
Qed.

(** X1. When the parent's Get fails with an error other than not-found,
    Reconcile returns that error wrapped with "could not get the parent
    resource", no requeue directive, and the Get is its only call. *)
Theorem Reconcile_parent_get_error {S} (r : TemplatingReconciler S) (req : Request) (s : S)
  (e : error)
  (Hget : GetParent (kube r) (parent_ident r req) s = Err e)
  (Hnf : IsNotFound e = false) :
  Reconcile r req (start s)
  = ((NoRequeue, Some (EWrap errGetResource e)), mkWorld s [CGet (parent_ident r req)]).
Proof.
  unfold Reconcile, start. mstep. rewrite Hget. simpl.
  unfold IgnoreNotFound. rewrite Hnf. reflexivity.
Qed.

Lemma Reconcile_parent_get_error_witness :
  Reconcile (sampleReconciler (fun _ => Ok [childA]) []) reqX
    (start (storeWith parentX [] [(OpGet, parentXId, errBoom)]))
  = ((NoRequeue, Some (EWrap errGetResource errBoom)),
     mkWorld (storeWith parentX [] [(OpGet, parentXId, errBoom)]) [CGet parentXId]).
Proof.
  exact (Reconcile_parent_get_error (sampleReconciler (fun _ => Ok [childA]) []) reqX
           (storeWith parentX [] [(OpGet, parentXId, errBoom)]) errBoom eq_refl eq_refl).
Defined.

Lemma apply_all_calls {S} (k : Client S) (l : list json) (w1 w2 : World S) :
  apply_all k l w1 = (None, w2) ->
  exists cs, w_calls w2 = (w_calls w1 ++ cs)%list /\
             get_idents cs = map child_ident l /\ writes_from l cs.
Proof.
  revert w1; induction l as [|o l IH]; intros w1 H; simpl in *.
  - unfold ret in H. inversion H; subst. exists []. rewrite app_nil_r.
    repeat split. intros c [].
  - unfold bind in H. destruct (Apply_calls k o w1) as (cs1 & Hc1 & Hg1 & Hf1).
    destruct (Apply k o w1) as [e w'] eqn:HA. simpl in *.
    destruct e as [e|]; [unfold ret in H; discriminate|].
    destruct (IH w' H) as (cs2 & Hc2 & Hg2 & Hf2).
    exists (cs1 ++ cs2)%list. rewrite Hc2, Hc1, app_assoc. repeat split.
    + rewrite get_idents_app, Hg1, Hg2. reflexivity.
    + apply writes_from_app.
      * apply (writes_from_incl [o]); auto. intros x [<-|[]]. left. reflexivity.
      * apply (writes_from_incl l); auto. intros x Hx. right. exact Hx.
Qed.

(** X2. When every child produced by the patcher chain applies without
    error, Reconcile fetches the parent and then each child in the chain's
    order, issues exactly one create or patch per child, then writes the
    status once with the ReconcileSuccess condition set, and returns a
    requeue after the long wait with the status write's error (wrapped) as
    its error. *)
Theorem Reconcile_all_children_applied {S} (r : TemplatingReconciler S) (req : Request) (s : S)
  (cr : Parent) (l0 l : list json) (w2 : World S)
  (Hget : GetParent (kube r) (parent_ident r req) s = Ok cr)
  (Hdel : WasDeleted cr = false)
  (Ht : templatingEngine r cr = Ok l0)
  (Hch : ChainPatch (childResourcePatcher r) cr l0 = Ok l)
  (Hall : apply_all (kube r) l (mkWorld s [CGet (parent_ident r req)]) = (None, w2)) :
  let cr' := SetConditions cr ReconcileSuccess in
  let u := fst (StatusUpdate (kube r) cr' (w_store w2)) in
  Reconcile r req (start s)
    = ((RequeueAfterD (longWait r), wrap u errUpdateResourceStatus),
       mkWorld (snd (StatusUpdate (kube r) cr' (w_store w2)))
               (w_calls w2 ++ [CStatusUpdate cr' u])%list) /\
  get_idents (w_calls w2) = parent_ident r req :: map child_ident l /\
  count_calls is_write (w_calls w2) = length l /\
  In ReconcileSuccess (p_conditions cr').
Proof.
  intros cr' u. split; [|split; [|split]].
  - unfold Reconcile, start. unfold bind at 1, kube_get_parent, record_call. simpl.
    rewrite Hget, Hdel, Ht. simpl. rewrite Hch.
    rewrite <- (app_nil_r l) at 1.
    rewrite (apply_children_prefix r cr l [] _ _ Hall). simpl. mstep. unfold u, cr'.
    destruct (StatusUpdate (kube r) _ (w_store w2)); reflexivity.
  - destruct (apply_all_calls _ _ _ _ Hall) as (cs & Hc & Hg & _).
    rewrite Hc. simpl. rewrite Hg. reflexivity.
  - rewrite (apply_all_writes _ _ _ _ Hall). reflexivity.
  - apply set_condition_in.
Qed.

Lemma Reconcile_all_children_applied_witness :
  let s := storeWith parentX [(child_ident childA, childA)] [] in
  let w2 := snd (apply_all memClient [childA; childB] (mkWorld s [CGet parentXId])) in
  apply_all memClient [childA; childB] (mkWorld s [CGet parentXId]) = (None, w2) /\
  get_idents (w_calls w2) = [parentXId; child_ident childA; child_ident childB] /\
  count_calls is_write (w_calls w2) = 2.
Proof.
  intros s w2.
  assert (H : apply_all memClient [childA; childB] (mkWorld s [CGet parentXId]) = (None, w2))
    by reflexivity.
  destruct (Reconcile_all_children_applied (sampleReconciler (fun _ => Ok [childA; childB]) [])
              reqX s parentX [childA; childB] [childA; childB] w2
              eq_refl eq_refl eq_refl eq_refl H) as (_ & Hg & Hw & _).
  repeat split; assumption.
Defined.

Lemma apply_children_writes {S} (r : TemplatingReconciler S) (cr : Parent) (l : list json)
  (w : World S) :
  exists cs, w_calls (snd (apply_children r cr l w)) = (w_calls w ++ cs)%list /\
             writes_from l cs.
Proof.
  revert cr w; induction l as [|o l IH]; intros cr w; simpl.
  - mstep. destruct (StatusUpdate (kube r) _ (w_store w)) as [u s'] eqn:Hu; simpl.
    eexists. split; [reflexivity|]. intros c [<-|[]]. exact I.
  - destruct (Apply_calls (kube r) o w) as (cs & Hc & _ & Hf).
    unfold bind. destruct (Apply (kube r) o w) as [e w'] eqn:HA; simpl in *.
    assert (Hf' : writes_from (o :: l) cs)
      by (apply (writes_from_incl [o]); auto; intros x [<-|[]]; left; reflexivity).
    destruct e as [e|].
    + mstep. destruct (StatusUpdate (kube r) _ (w_store w')) as [u s'] eqn:Hu; simpl.
      exists (cs ++ [CStatusUpdate (SetConditions cr (ReconcileError (EWrap (apply_label o) e))) u])%list.
      rewrite Hc, <- app_assoc. split; [reflexivity|].
      apply writes_from_app; auto. intros c [<-|[]]. exact I.
    + destruct (IH cr w') as (cs' & Hc' & Hf2).
      exists (cs ++ cs')%list. rewrite Hc', Hc, <- app_assoc. split; [reflexivity|].
      apply writes_from_app; auto.
      apply (writes_from_incl l); auto. intros x Hx. right. exact Hx.
Qed.

(** X12. Every create and every patch a cycle issues sends one of the
    children produced by the patcher chain, each as rendered: Reconcile
    never creates or patches the parent or anything else. *)
Theorem Reconcile_writes_only_children {S} (r : TemplatingReconciler S) (req : Request) (s : S)
  (cr : Parent) (l0 l : list json)
  (Hget : GetParent (kube r) (parent_ident r req) s = Ok cr)
  (Ht : templatingEngine r cr = Ok l0)
  (Hch : ChainPatch (childResourcePatcher r) cr l0 = Ok l) :
  writes_from l (w_calls (snd (Reconcile r req (start s)))).
Proof.
  unfold Reconcile, start. unfold bind at 1, kube_get_parent, record_call. simpl.
  rewrite Hget. simpl. destruct (WasDeleted cr).
  - intros c [<-|[]]. exact I.
  - rewrite Ht. simpl. rewrite Hch.
    destruct (apply_children_writes r cr l (mkWorld s [CGet (parent_ident r req)]))
      as (cs & Hc & Hf).
    rewrite Hc. simpl. intros c [<-|Hin]; [exact I|]. apply Hf. exact Hin.
Qed.

Lemma Reconcile_writes_only_children_witness :
  writes_from [childA; childB]
    (w_calls (snd (Reconcile (sampleReconciler (fun _ => Ok [childA; childB]) []) reqX
                     (start (storeWith parentX [(child_ident childA, childA)] []))))).
Proof.
  exact (Reconcile_writes_only_children (sampleReconciler (fun _ => Ok [childA; childB]) [])
           reqX (storeWith parentX [(child_ident childA, childA)] []) parentX
           [childA; childB] [childA; childB] eq_refl eq_refl eq_refl).
Defined.



Lemma split_slash_spec (l : list ascii) :
  1 <= count_slash l -> l = (fst (split_slash l) ++ "/"%char :: snd (split_slash l))%list.
Proof.
  induction l as [|c l IH]; simpl; intros H; [lia|].
  destruct (Ascii.eqb c "/"%char) eqn:E.
  - apply Ascii.eqb_eq in E. subst c. reflexivity.
  - simpl in H. destruct (split_slash l) as [g v]. simpl in *. rewrite <- IH by lia.
    reflexivity.
Qed.

Lemma string_of_list_ascii_app (a b : list ascii) :
  string_of_list_ascii (a ++ b) = string_of_list_ascii a ++ string_of_list_ascii b.
Proof. induction a as [|c a IH]; simpl; [reflexivity|now rewrite IH]. Qed.

(** X5. The type shown in an apply-failure message
    (GroupVersionKind().String()) is "/<apiVersion>, Kind=<kind>" for an
    apiVersion without '/', "<apiVersion>, Kind=<kind>" for one with a
    single '/', and "/, Kind=" -- without the kind -- for an apiVersion
    with two or more '/'. *)
Theorem GVKString_cases (o : json) :
  let av := GetAPIVersion o in
  let n := count_slash (list_ascii_of_string av) in
  (n = 0 -> GVKString o = "/" ++ av ++ ", Kind=" ++ GetKind o) /\
  (n = 1 -> GVKString o = av ++ ", Kind=" ++ GetKind o) /\
  (2 <= n -> GVKString o = "/, Kind=").
Proof.
  intros av n. unfold GVKString, ParseGroupVersion. fold av.
  destruct (String.eqb av "") eqn:E1.
  { apply String.eqb_eq in E1. unfold n. rewrite E1. simpl.
    repeat split; intros H; try lia; reflexivity. }
  destruct (String.eqb av "/") eqn:E2.
  { apply String.eqb_eq in E2. unfold n. rewrite E2. simpl.
    repeat split; intros H; try lia; reflexivity. }
  simpl. fold n. repeat split; intros H.
  - rewrite H. reflexivity.
  - rewrite H. pose proof (split_slash_spec (list_ascii_of_string av)) as Hs.
    destruct (split_slash (list_ascii_of_string av)) as [g v] eqn:Eg. simpl in Hs.
    assert (Hav : av = string_of_list_ascii g ++ "/" ++ string_of_list_ascii v).
    { rewrite <- (string_of_list_ascii_of_string av), Hs by (unfold n in H; lia).
      rewrite string_of_list_ascii_app. reflexivity. }
    rewrite Hav. repeat (progress simpl || rewrite string_app_assoc). reflexivity.
  - destruct n as [|[|k]]; [lia|lia|reflexivity].
Qed.

(** ** Construction of the reconciler *)

Definition preserves {S A} (f : TemplatingReconciler S -> A)
  (opt : TemplatingReconcilerOption S) : Prop :=
  forall r, f (opt r) = f r.

(** One of the exported options other than WithLogger. *)
Definition is_option {S} (opt : TemplatingReconcilerOption S) : Prop :=
  (exists d, opt = WithShortWait d) \/ (exists d, opt = WithLongWait d) \/
  (exists e, opt = WithTemplatingEngine e) \/ (exists c, opt = WithChildResourcePatcher c).

Lemma fold_options_preserve {S A} (f : TemplatingReconciler S -> A)
  (opts : list (TemplatingReconcilerOption S)) (r : TemplatingReconciler S) :
  Forall (preserves f) opts -> f (fold_left (fun r opt => opt r) opts r) = f r.
Proof.
  revert r; induction opts as [|o opts IH]; intros r H; simpl; [reflexivity|].
  inversion H as [|? ? Ho Hrest]; subst. rewrite IH by exact Hrest. apply Ho.
Qed.

Lemma fold_options_last {S A} (f : TemplatingReconciler S -> A) (v : A)
  (pre post : list (TemplatingReconcilerOption S)) (o : TemplatingReconcilerOption S)
  (r : TemplatingReconciler S) :
  (forall r, f (o r) = v) -> Forall (preserves f) post ->
  f (fold_left (fun r opt => opt r) (pre ++ o :: post) r) = v.
Proof.
  intros Ho Hpost. rewrite fold_left_app. cbn [fold_left].
  rewrite (fold_options_preserve f post) by exact Hpost. apply Ho.
Qed.

(** X6. NewTemplatingReconciler: the short wait is the one given by the last
    WithShortWait option, provided no option after it changes the short wait. *)
Theorem NewTemplatingReconciler_shortWait {S} (dp : list ChildResourcePatcher) (m : Client S)
  (av k : string) (pre post : list (TemplatingReconcilerOption S)) (d : Z)
  (Hpost : Forall (preserves shortWait) post) :
  shortWait (NewTemplatingReconciler dp m av k (pre ++ WithShortWait d :: post)) = d.
Proof. unfold NewTemplatingReconciler. apply fold_options_last; [reflexivity|exact Hpost]. Qed.

(** X7. NewTemplatingReconciler: the long wait is the one given by the last
    WithLongWait option, provided no option after it changes the long wait. *)
Theorem NewTemplatingReconciler_longWait {S} (dp : list ChildResourcePatcher) (m : Client S)
  (av k : string) (pre post : list (TemplatingReconcilerOption S)) (d : Z)
  (Hpost : Forall (preserves longWait) post) :
  longWait (NewTemplatingReconciler dp m av k (pre ++ WithLongWait d :: post)) = d.
Proof. unfold NewTemplatingReconciler. apply fold_options_last; [reflexivity|exact Hpost]. Qed.

(** X8. NewTemplatingReconciler: the templating engine is the one given by the
    last WithTemplatingEngine option, provided no later option changes it. *)
Theorem NewTemplatingReconciler_engine {S} (dp : list ChildResourcePatcher) (m : Client S)
  (av k : string) (pre post : list (TemplatingReconcilerOption S))
  (eng : Parent -> result (list json))
  (Hpost : Forall (preserves templatingEngine) post) :
  templatingEngine (NewTemplatingReconciler dp m av k (pre ++ WithTemplatingEngine eng :: post))
  = eng.
Proof. unfold NewTemplatingReconciler. apply fold_options_last; [reflexivity|exact Hpost]. Qed.

(** X9. NewTemplatingReconciler: the patcher list is the one given by the last
    WithChildResourcePatcher option (replacing, not extending, the default
    chain), provided no later option changes it. *)
Theorem NewTemplatingReconciler_patcher {S} (dp : list ChildResourcePatcher) (m : Client S)
  (av k : string) (pre post : list (TemplatingReconcilerOption S))
  (op : list ChildResourcePatcher)
  (Hpost : Forall (preserves childResourcePatcher) post) :
  childResourcePatcher
    (NewTemplatingReconciler dp m av k (pre ++ WithChildResourcePatcher op :: post)) = op.
Proof. unfold NewTemplatingReconciler. apply fold_options_last; [reflexivity|exact Hpost]. Qed.

(** X10. NewTemplatingReconciler: when no option changes a setting, it keeps
    its default: 30 s short wait, 1 min long wait, the no-op templating
    engine and the default patcher chain. *)
Theorem NewTemplatingReconciler_defaults {S} (dp : list ChildResourcePatcher) (m : Client S)
  (av k : string) (opts : list (TemplatingReconcilerOption S)) :
  let r := NewTemplatingReconciler dp m av k opts in
  (Forall (preserves shortWait) opts -> shortWait r = defaultShortWait) /\
  (Forall (preserves longWait) opts -> longWait r = defaultLongWait) /\
  (Forall (preserves templatingEngine) opts -> templatingEngine r = NopTemplatingEngine) /\
  (Forall (preserves childResourcePatcher) opts -> childResourcePatcher r = dp).
Proof.
  intros r; unfold r, NewTemplatingReconciler.
  repeat split; intros H.
  - rewrite (fold_options_preserve shortWait) by exact H; reflexivity.
  - rewrite (fold_options_preserve longWait) by exact H; reflexivity.
  - rewrite (fold_options_preserve templatingEngine) by exact H; reflexivity.
  - rewrite (fold_options_preserve childResourcePatcher) by exact H; reflexivity.
Qed.

Lemma is_option_preserves_ident {S} (opt : TemplatingReconcilerOption S) :
  is_option opt ->
  preserves (fun r => (kube r, parentAPIVersion r, parentKind r)) opt.
Proof.
  intros [[d ->]|[[d ->]|[[e ->]|[c ->]]]]; intros r; reflexivity.
Qed.

(** X11. NewTemplatingReconciler: no option changes the client or the parent
    GroupVersionKind; whatever options are given, they are the ones passed
    to the constructor, so Reconcile looks the parent up under that kind. *)
Theorem NewTemplatingReconciler_identity {S} (dp : list ChildResourcePatcher) (m : Client S)
  (av k : string) (opts : list (TemplatingReconcilerOption S))
  (Hopts : Forall is_option opts) :
  let r := NewTemplatingReconciler dp m av k opts in
  kube r = m /\ parentAPIVersion r = av /\ parentKind r = k /\
  (forall req, parent_ident r req = mkIdent av k (req_namespace req) (req_name req)).
Proof.
  intros r.
  assert (H : (kube r, parentAPIVersion r, parentKind r) = (m, av, k)).
  { unfold r, NewTemplatingReconciler.
    apply (fold_options_preserve (fun r => (kube r, parentAPIVersion r, parentKind r))).
    eapply Forall_impl; [|exact Hopts]. apply is_option_preserves_ident. }
  inversion H as [[Hk Ha Hkd]]. rewrite Hk, Ha, Hkd.
  repeat split. intros req. unfold parent_ident. rewrite Ha, Hkd. reflexivity.
Qed.

(** X13. A reconciler built with no options renders no children (the no-op
    engine): for a live parent whose patcher chain leaves the empty list
    empty, Reconcile makes one status update marking the parent Synced and
    requeues after the default long wait (1 min). *)
Theorem Reconcile_default_reconciler {S} (dp : list ChildResourcePatcher) (m : Client S)
  (av k : string) (req : Request) (s s' : S) (cr : Parent) (u : option error)
  (Hget : GetParent m (mkIdent av k (req_namespace req) (req_name req)) s = Ok cr)
  (Hdel : WasDeleted cr = false)
  (Hchain : ChainPatch dp cr [] = Ok [])
  (Hst : StatusUpdate m (SetConditions cr ReconcileSuccess) s = (u, s')) :
  Reconcile (NewTemplatingReconciler dp m av k []) req (start s)
  = ((RequeueAfterD defaultLongWait, wrap u errUpdateResourceStatus),
     mkWorld s' [CGet (mkIdent av k (req_namespace req) (req_name req));
                 CStatusUpdate (SetConditions cr ReconcileSuccess) u]).
Proof.
  unfold Reconcile, start, NewTemplatingReconciler, parent_ident. simpl.
  mstep. rewrite Hget. simpl. rewrite Hdel. unfold NopTemplatingEngine.
  rewrite Hchain. simpl. mstep. simpl. rewrite Hst. reflexivity.
Qed.

Lemma NewTemplatingReconciler_shortWait_witness :
  Forall (preserves shortWait)
    [WithTemplatingEngine (S := MemStore) NopTemplatingEngine; WithLongWait 5%Z] /\
  shortWait (NewTemplatingReconciler [] memClient "example.org/v1" "Foo"
    ([WithShortWait 3%Z] ++ WithShortWait 7%Z ::
     [WithTemplatingEngine NopTemplatingEngine; WithLongWait 5%Z])) = 7%Z.
Proof.
  assert (H : Forall (preserves shortWait)
    [WithTemplatingEngine (S := MemStore) NopTemplatingEngine; WithLongWait 5%Z]).
  { constructor; [intros r; reflexivity|]. constructor; [intros r; reflexivity|].
    constructor. }
  split; [exact H|].
  exact (NewTemplatingReconciler_shortWait [] memClient "example.org/v1" "Foo"
           [WithShortWait 3%Z] _ 7%Z H).
Defined.

Lemma NewTemplatingReconciler_longWait_witness :
  Forall (preserves longWait) [WithShortWait (S := MemStore) 2%Z] /\
  longWait (NewTemplatingReconciler [] memClient "example.org/v1" "Foo"
    ([] ++ WithLongWait 9%Z :: [WithShortWait 2%Z])) = 9%Z.
Proof.
  assert (H : Forall (preserves longWait) [WithShortWait (S := MemStore) 2%Z]).
  { constructor; [intros r; reflexivity|]. constructor. }
  split; [exact H|].
  exact (NewTemplatingReconciler_longWait [] memClient "example.org/v1" "Foo" [] _ 9%Z H).
Defined.

Lemma NewTemplatingReconciler_engine_witness :
  Forall (preserves templatingEngine) [WithChildResourcePatcher (S := MemStore) []] /\
  templatingEngine (NewTemplatingReconciler [] memClient "example.org/v1" "Foo"
    ([WithShortWait 1%Z] ++ WithTemplatingEngine (fun _ => Ok [childA]) ::
     [WithChildResourcePatcher []])) = (fun _ => Ok [childA]).
Proof.
  assert (H : Forall (preserves templatingEngine) [WithChildResourcePatcher (S := MemStore) []]).
  { constructor; [intros r; reflexivity|]. constructor. }
  split; [exact H|].
  exact (NewTemplatingReconciler_engine [] memClient "example.org/v1" "Foo"
           [WithShortWait 1%Z] _ (fun _ => Ok [childA]) H).
Defined.

Lemma NewTemplatingReconciler_patcher_witness :
  Forall (preserves childResourcePatcher) [WithLongWait (S := MemStore) 4%Z] /\
  childResourcePatcher (NewTemplatingReconciler [fun _ l => Ok l] memClient "example.org/v1" "Foo"
    ([] ++ WithChildResourcePatcher [] :: [WithLongWait 4%Z])) = [].
Proof.
  assert (H : Forall (preserves childResourcePatcher) [WithLongWait (S := MemStore) 4%Z]).
  { constructor; [intros r; reflexivity|]. constructor. }
  split; [exact H|].
  exact (NewTemplatingReconciler_patcher [fun _ l => Ok l] memClient "example.org/v1" "Foo"
           [] _ [] H).
Defined.

Lemma NewTemplatingReconciler_identity_witness :
  let r := NewTemplatingReconciler [] memClient "example.org/v1" "Foo"
             [WithShortWait 1%Z; WithTemplatingEngine (fun _ => Ok [childA])] in
  kube r = memClient /\ parentAPIVersion r = "example.org/v1" /\ parentKind r = "Foo" /\
  (forall req, parent_ident r req = mkIdent "example.org/v1" "Foo" (req_namespace req) (req_name req)).
Proof.
  assert (H : Forall is_option
    [WithShortWait (S := MemStore) 1%Z; WithTemplatingEngine (fun _ => Ok [childA])]).
  { constructor; [left; exists 1%Z; reflexivity|].
    constructor; [right; right; left; exists (fun _ => Ok [childA]); reflexivity|].
    constructor. }
  exact (NewTemplatingReconciler_identity [] memClient "example.org/v1" "Foo" _ H).
Defined.

Lemma Reconcile_default_reconciler_witness :
  let s := storeWith parentX [] [] in
  let '(u, s') := StatusUpdate memClient (SetConditions parentX ReconcileSuccess) s in
  Reconcile (NewTemplatingReconciler [] memClient "example.org/v1" "Foo" []) reqX (start s)
  = ((RequeueAfterD defaultLongWait, wrap u errUpdateResourceStatus),
     mkWorld s' [CGet parentXId; CStatusUpdate (SetConditions parentX ReconcileSuccess) u]).
Proof.
  intros s.
  destruct (StatusUpdate memClient (SetConditions parentX ReconcileSuccess) s) as [u s'] eqn:E.
  exact (Reconcile_default_reconciler [] memClient "example.org/v1" "Foo" reqX s s' parentX u
           eq_refl eq_refl eq_refl E).
Defined.
